(** * Composite IPR (Inflow Performance Relationship): the math engine of IPR.py

    The engine is the function [calculate_q] of IPR.py (lines 19-37), the
    sampled curve built from it (lines 40-41) and the productivity index
    recomputed for display (lines 67-68).

    The Python code computes on numbers with [+], [-], [*], [/], [**2] and
    [>=]; [/] raises [ZeroDivisionError] on a zero divisor.  The embedding
    is written once over an interface [Arith] of exactly these operations
    and read at two number types:
    - [Q], exact rational arithmetic, where the algebraic properties of the
      relation are proved;
    - [float], the IEEE-754 binary64 numbers Python really computes with,
      where concrete runs are evaluated. *)

From Stdlib Require Import ZArith QArith Qfield Lqa Lia List Bool Floats.
From Stdlib Require String.
Import ListNotations.
Import String.StringSyntax.
Delimit Scope string_scope with string.

(** ** Results and exceptions *)

(** The only exception the engine can raise: Python's division by zero. *)
Inductive exn : Type := ZeroDivisionError.

Inductive result (A : Type) : Type :=
| Ok (a : A)
| Raise (e : exn).
Arguments Ok {A} a.
Arguments Raise {A} e.

Definition bind {A B : Type} (m : result A) (k : A -> result B) : result B :=
  match m with
  | Ok a => k a
  | Raise e => Raise e
  end.

Notation "x <- m ;; k" := (bind m (fun x => k))
  (at level 61, m at next level, right associativity).

(** A list comprehension whose body can raise: the first exception ends it. *)
Fixpoint mapM {A B : Type} (f : A -> result B) (l : list A) : result (list B) :=
  match l with
  | [] => Ok []
  | a :: l' => b <- f a ;; bs <- mapM f l' ;; Ok (b :: bs)
  end.

(** The branch an [if x >= pb: ... else: ...] of the engine takes. *)
Inductive regime : Type := Linear | Vogel.

(** ** The arithmetic the code uses *)

Class Arith (num : Type) : Type := {
  of_Z : Z -> num;                  (* an integer literal or input *)
  dec : Q -> num;                   (* a decimal literal such as 0.2 *)
  add : num -> num -> num;
  sub : num -> num -> num;
  mul : num -> num -> num;
  div : num -> num -> result num;   (* x / y, raising on y = 0 *)
  sqr : num -> num;                 (* x ** 2, where it does not overflow *)
  geb : num -> num -> bool          (* x >= y *)
}.

Section Engine.
Context {num : Type} `{Arith num}.

(** [if x >= pb] (lines 21 and 32). *)
Definition regime_of (x pb : num) : regime :=
  if geb x pb then Linear else Vogel.

(** [1 - 0.2*(p/pb) - 0.8*(p/pb)**2] (lines 28 and 36). *)
Definition vogel_term (p pb : num) : result num :=
  x1 <- div p pb ;;
  x2 <- div p pb ;;
  Ok (sub (sub (of_Z 1) (mul (dec 0.2) x1)) (mul (dec 0.8) (sqr x2))).

(** Part 1 of [calculate_q] (lines 21-29): the productivity index [j]. *)
Definition solve_J (pr pb q_test pwf_test : num) : result num :=
  match regime_of pwf_test pb with
  | Linear => div q_test (sub pr pwf_test)
  | Vogel =>
      vt <- vogel_term pwf_test pb ;;
      c <- div pb (dec 1.8) ;;
      div q_test (add (sub pr pb) (mul c vt))
  end.

(** [j * (pr - p_val)] (line 33). *)
Definition linear_rate (p_val pr j : num) : num :=
  mul j (sub pr p_val).

(** Lines 35-37. *)
Definition vogel_rate (p_val pr pb j : num) : result num :=
  let q_at_pb := mul j (sub pr pb) in
  vt <- vogel_term p_val pb ;;
  c <- div (mul j pb) (dec 1.8) ;;
  Ok (add q_at_pb (mul c vt)).

(** Part 2 of [calculate_q] (lines 32-37): the rate at [p_val]. *)
Definition rate_at (p_val pr pb j : num) : result num :=
  match regime_of p_val pb with
  | Linear => Ok (linear_rate p_val pr j)
  | Vogel => vogel_rate p_val pr pb j
  end.

(** [calculate_q] (lines 19-37). *)
Definition calculate_q (p_val pr pb q_test pwf_test : num) : result num :=
  j <- solve_J pr pb q_test pwf_test ;;
  rate_at p_val pr pb j.

(** The index recomputed for display (lines 67-68), as one expression:
    [pr - pb] and [pb / 1.8] are evaluated before the Vogel term. *)
Definition j_disp (pr pb q_test pwf_test : num) : result num :=
  if geb pwf_test pb then div q_test (sub pr pwf_test)
  else
    c <- div pb (dec 1.8) ;;
    x1 <- div pwf_test pb ;;
    x2 <- div pwf_test pb ;;
    div q_test
      (add (sub pr pb)
         (mul c (sub (sub (of_Z 1) (mul (dec 0.2) x1))
                   (mul (dec 0.8) (sqr x2))))).

(** [numpy.linspace(start, stop, num)] with its default [endpoint=True]:
    [num] samples [start + i*step], [step = (stop - start)/(num - 1)],
    the last one set to [stop] itself. *)
Definition linspace (start stop : num) (n : nat) : result (list num) :=
  match n with
  | O => Ok []
  | S O => Ok [start]
  | S m =>
      step <- div (sub stop start) (of_Z (Z.of_nat m)) ;;
      Ok (map (fun i => add (mul (of_Z (Z.of_nat i)) step) start) (seq 0 m)
          ++ [stop])
  end.

(** [pwf_range = np.linspace(0, pr, 100)] (line 40). *)
Definition pwf_range (pr : num) : result (list num) :=
  linspace (of_Z 0) pr 100.

(** [q_curve = [calculate_q(p, ...) for p in pwf_range]] (line 41). *)
Definition q_curve (pr pb q_test pwf_test : num) : result (list num) :=
  ps <- pwf_range pr ;;
  mapM (fun p => calculate_q p pr pb q_test pwf_test) ps.

(** [q_target] (line 42). *)
Definition q_target (pwf_target pr pb q_test pwf_test : num) : result num :=
  calculate_q pwf_target pr pb q_test pwf_test.
End Engine.

(** The round trip of the calibration: the rate at the test pressure is
    the test rate, for [eqv] the equality of the numbers. *)
Definition round_trip {num : Type} `{Arith num} (eqv : num -> num -> Prop)
    (pr pb q_test pwf_test : num) : Prop :=
  exists q, calculate_q pwf_test pr pb q_test pwf_test = Ok q /\ eqv q q_test.

(** ** Exact arithmetic *)

(** Rationals neither round, underflow nor overflow.  On floats Python's
    [x ** 2] raises [OverflowError] when the square exceeds the largest
    float, and a quotient can round to zero: what is proved on this
    instance is a fact of exact arithmetic. *)

Definition Qdiv_py (x y : Q) : result Q :=
  if Qeq_bool y 0 then Raise ZeroDivisionError else Ok (x / y).

#[export] Instance Arith_Q : Arith Q := {
  of_Z := inject_Z;
  dec := fun q => q;
  add := Qplus;
  sub := Qminus;
  mul := Qmult;
  div := Qdiv_py;
  sqr := fun x => x ^ 2;
  geb := fun x y => Qle_bool y x
}.

(** ** IEEE-754 binary64 arithmetic *)

(** The sidebar inputs are Python integers; below [2^53], the safe integers
    of the sidebar's widgets, their conversion to a float is exact. *)
Definition float_of_Z (z : Z) : float :=
  match z with
  | Z0 => PrimFloat.zero
  | Zpos _ => PrimFloat.of_uint63 (Uint63.of_Z z)
  | Zneg p => PrimFloat.opp (PrimFloat.of_uint63 (Uint63.of_Z (Zpos p)))
  end.

Definition float_div_py (x y : float) : result float :=
  if PrimFloat.eqb y PrimFloat.zero then Raise ZeroDivisionError
  else Ok (PrimFloat.div x y).

(** A decimal literal denotes the float nearest to it, which is also the
    rounded quotient of its numerator and denominator; [x ** 2] is taken as
    the rounded square. *)
#[export] Instance Arith_float : Arith float := {
  of_Z := float_of_Z;
  dec := fun q => PrimFloat.div (float_of_Z (Qnum q)) (float_of_Z (Zpos (Qden q)));
  add := PrimFloat.add;
  sub := PrimFloat.sub;
  mul := PrimFloat.mul;
  div := float_div_py;
  sqr := fun x => PrimFloat.mul x x;
  geb := fun x y => PrimFloat.leb y x
}.

(** ** The properties studied, on the exact instance *)

Local Open Scope Q_scope.

(** The Vogel polynomial in the pressure ratio [x = p / pb]. *)
Definition vogel_poly (x : Q) : Q := 1 - 0.2 * x - 0.8 * (x * x).

(** Agreement of the two formulas of the evaluator at [p = pb], where the
    Vogel term takes the value [term_at_pb]. *)
Definition boundary_continuity (term_at_pb pr pb j : Q) : Prop :=
  exists t q,
    vogel_term pb pb = Ok t /\ t == term_at_pb /\
    vogel_rate pb pr pb j = Ok q /\ q == linear_rate pb pr j.

(** A test point with no drawdown makes the solver, and so the whole of
    [calculate_q], raise. *)
Definition zero_drawdown_raises (pr pb q_test pwf_test : Q) : Prop :=
  pwf_test == pr ->
  solve_J pr pb q_test pwf_test = Raise ZeroDivisionError /\
  forall p_val, calculate_q p_val pr pb q_test pwf_test = Raise ZeroDivisionError.

(** With [pb == pr], an in-range test pressure is solved on the linear
    branch. *)
Definition saturated_solves_linear (pr pb pwf_test : Q) : Prop :=
  pb == pr -> 0 <= pwf_test -> pwf_test <= pr ->
  regime_of pwf_test pb = Linear.

(** A target pressure outside [[0, pr]] makes the evaluator raise. *)
Definition out_of_range_raises (p pr pb j : Q) : Prop :=
  p < 0 \/ pr < p -> exists e, rate_at p pr pb j = Raise e.

(** The [i]-th of the first [m] samples of [linspace start stop (m+1)]. *)
Definition sample_point (start stop : Q) (m i : nat) : Q :=
  inject_Z (Z.of_nat i) * ((stop - start) / inject_Z (Z.of_nat m)) + start.

(** ** The script around the engine *)

(** What the script computes from the five integers of the sidebar before
    it draws them: the sampled pressures and rates (lines 40-41), the rate
    at the target pressure (line 42), the reservoir status (line 63) and
    the index shown (lines 67-68). *)
Record outputs (num : Type) : Type := {
  out_pwf_range : list num;
  out_q_curve : list num;
  out_q_target : num;
  out_state : String.string;
  out_j_disp : num
}.
Arguments out_pwf_range {num} _.
Arguments out_q_curve {num} _.
Arguments out_q_target {num} _.
Arguments out_state {num} _.
Arguments out_j_disp {num} _.

(** [state = "Undersaturated" if pr > pb else "Saturated"] (line 63), on
    the integers of the sidebar. *)
Definition state (pr pb : Z) : String.string :=
  if (pr >? pb)%Z then "Undersaturated"%string else "Saturated"%string.

Section Script.
Context {num : Type} `{Arith num}.

(** The statements of the script in their order; the first exception ends
    it, as nothing catches one. *)
Definition script (pr pb pwf_test q_test pwf_target : Z) : result (outputs num) :=
  ps <- pwf_range (of_Z pr) ;;
  qs <- mapM (fun p => calculate_q p (of_Z pr) (of_Z pb) (of_Z q_test)
                         (of_Z pwf_test)) ps ;;
  qt <- q_target (of_Z pwf_target) (of_Z pr) (of_Z pb) (of_Z q_test)
          (of_Z pwf_test) ;;
  jd <- j_disp (of_Z pr) (of_Z pb) (of_Z q_test) (of_Z pwf_test) ;;
  Ok {| out_pwf_range := ps; out_q_curve := qs; out_q_target := qt;
        out_state := state pr pb; out_j_disp := jd |}.
End Script.

(** The bounds the widgets of the sidebar put on the five inputs
    (lines 10-16). *)
Definition sidebar (pr pb pwf_test q_test pwf_target : Z) : bool :=
  ((1 <=? pr) && (0 <=? pb) && (0 <=? pwf_test) && (pwf_test <=? pr)
   && (1 <=? q_test) && (0 <=? pwf_target) && (pwf_target <=? pr))%Z.

(** The solver returns a positive index on a valid test observation, for
    [lt] the strict order of the numbers. *)
Definition index_positive {num : Type} `{Arith num} (lt : num -> num -> Prop)
    (pr pb q_test pwf_test : num) : Prop :=
  lt (of_Z 0) q_test ->
  geb pwf_test (of_Z 0) = true -> lt pwf_test pr ->
  geb pb (of_Z 0) = true -> geb pr pb = true ->
  exists j, solve_J pr pb q_test pwf_test = Ok j /\ lt (of_Z 0) j.

(** [n] sampled pressures that start at 0 and end at [pr]. *)
Definition samples_span (pr : Q) (n : nat) : Prop :=
  exists ps,
    linspace 0 pr n = Ok ps /\ length ps = n /\
    nth 0 ps 0 == 0 /\ nth (n - 1) ps 0 == pr.

(** Two results agree: the same exception, or equal numbers. *)
Definition result_eqv (a b : result Q) : Prop :=
  match a, b with
  | Ok x, Ok y => x == y
  | Raise e, Raise e' => e = e'
  | _, _ => False
  end.

(** A result multiplied by a number: an exception stays. *)
Definition scale (k : Q) (a : result Q) : result Q :=
  match a with
  | Ok x => Ok (k * x)
  | Raise e => Raise e
  end.

(** ** Facts on the exact instance *)

Lemma Qdiv_py_ok (x y : Q) : ~ y == 0 -> Qdiv_py x y = Ok (x / y).
Proof.
  intros Hy. unfold Qdiv_py.
  destruct (Qeq_bool y 0) eqn:E; [|reflexivity].
  apply Qeq_bool_iff in E. contradiction.
Qed.

Lemma Qdiv_py_zero (x y : Q) : y == 0 -> Qdiv_py x y = Raise ZeroDivisionError.
Proof.
  intros Hy. unfold Qdiv_py.
  apply Qeq_bool_iff in Hy. now rewrite Hy.
Qed.

Lemma regime_of_ge (x pb : Q) : pb <= x -> regime_of x pb = Linear.
Proof.
  intros Hx. unfold regime_of; cbn.
  apply Qle_bool_iff in Hx. now rewrite Hx.
Qed.

Lemma regime_of_lt (x pb : Q) : x < pb -> regime_of x pb = Vogel.
Proof.
  intros Hx. unfold regime_of; cbn.
  destruct (Qle_bool pb x) eqn:E; [|reflexivity].
  apply Qle_bool_iff in E. lra.
Qed.

Lemma regime_of_Linear_iff (x pb : Q) : regime_of x pb = Linear <-> pb <= x.
Proof.
  split; [|apply regime_of_ge].
  intros E. destruct (Qlt_le_dec x pb) as [Hlt|Hle]; [|exact Hle].
  rewrite (regime_of_lt _ _ Hlt) in E. discriminate.
Qed.

Lemma vogel_term_Q (p pb : Q) :
  ~ pb == 0 ->
  exists t, vogel_term p pb = Ok t /\ t == vogel_poly (p / pb).
Proof.
  intros Hpb. unfold vogel_term; cbn.
  rewrite (Qdiv_py_ok _ _ Hpb); cbn.
  eexists; split; [reflexivity|].
  unfold vogel_poly. ring.
Qed.

Lemma vogel_term_Q_zero (p pb : Q) :
  pb == 0 -> vogel_term p pb = Raise ZeroDivisionError.
Proof.
  intros Hpb. unfold vogel_term; cbn.
  now rewrite (Qdiv_py_zero _ _ Hpb).
Qed.

Lemma ratio_bounds (p pb : Q) :
  0 <= p -> p < pb -> 0 <= p / pb /\ p / pb < 1.
Proof.
  intros H0 Hlt. assert (Hpb : 0 < pb) by lra. split.
  - apply Qle_shift_div_l; [exact Hpb | lra].
  - apply Qlt_shift_div_r; [exact Hpb | lra].
Qed.

Lemma vogel_poly_pos (x : Q) : 0 <= x -> x < 1 -> 0 < vogel_poly x.
Proof. intros H0 H1. unfold vogel_poly. nra. Qed.

Lemma vogel_poly_one : vogel_poly 1 == 0.
Proof. reflexivity. Qed.

Lemma vogel_poly_zero : vogel_poly 0 == 1.
Proof. reflexivity. Qed.

Lemma vogel_poly_antitone (x y : Q) :
  0 <= x -> x <= y -> vogel_poly y <= vogel_poly x.
Proof. intros H0 Hxy. unfold vogel_poly. nra. Qed.

(** The productivity index in closed form, on each branch. *)
Lemma solve_J_linear (pr pb q_test pwf_test : Q) :
  pb <= pwf_test -> pwf_test < pr ->
  solve_J pr pb q_test pwf_test = Ok (q_test / (pr - pwf_test)).
Proof.
  intros Hge Hlt. unfold solve_J. rewrite (regime_of_ge _ _ Hge); cbn.
  apply Qdiv_py_ok. lra.
Qed.

Lemma composite_den_pos (pr pb pwf_test t : Q) :
  pb <= pr -> 0 <= pwf_test -> pwf_test < pb ->
  t == vogel_poly (pwf_test / pb) ->
  0 < (pr - pb) + pb / 1.8 * t.
Proof.
  intros Hpr H0 Hlt Ht.
  destruct (ratio_bounds _ _ H0 Hlt) as [Hx0 Hx1].
  pose proof (vogel_poly_pos _ Hx0 Hx1) as Hv. rewrite <- Ht in Hv.
  assert (Hc : 0 < pb / 1.8) by (apply Qlt_shift_div_l; lra).
  pose proof (Qmult_lt_0_compat _ _ Hc Hv). lra.
Qed.

Lemma solve_J_composite (pr pb q_test pwf_test : Q) :
  pb <= pr -> 0 <= pwf_test -> pwf_test < pb ->
  exists t, vogel_term pwf_test pb = Ok t /\
            t == vogel_poly (pwf_test / pb) /\
            0 < (pr - pb) + pb / 1.8 * t /\
            solve_J pr pb q_test pwf_test =
              Ok (q_test / ((pr - pb) + pb / 1.8 * t)).
Proof.
  intros Hpr H0 Hlt.
  assert (Hpb : ~ pb == 0) by lra.
  destruct (vogel_term_Q pwf_test pb Hpb) as (t & Et & Ht).
  pose proof (composite_den_pos pr pb pwf_test t Hpr H0 Hlt Ht) as Hden.
  exists t. repeat split; try assumption.
  unfold solve_J. rewrite (regime_of_lt _ _ Hlt), Et; cbn.
  rewrite !Qdiv_py_ok by lra. reflexivity.
Qed.

(** The rate in closed form, on each branch. *)
Lemma rate_at_linear (p pr pb j : Q) :
  pb <= p -> rate_at p pr pb j = Ok (j * (pr - p)).
Proof. intros Hge. unfold rate_at. now rewrite (regime_of_ge _ _ Hge). Qed.

Lemma rate_at_vogel (p pr pb j : Q) :
  p < pb -> ~ pb == 0 ->
  exists t, vogel_term p pb = Ok t /\ t == vogel_poly (p / pb) /\
            rate_at p pr pb j = Ok (j * (pr - pb) + j * pb / 1.8 * t).
Proof.
  intros Hlt Hpb.
  destruct (vogel_term_Q p pb Hpb) as (t & Et & Ht).
  exists t. repeat split; try assumption.
  unfold rate_at, vogel_rate. rewrite (regime_of_lt _ _ Hlt), Et; cbn.
  rewrite ?Qdiv_py_ok by lra. reflexivity.
Qed.

(** C1 (amended): in exact arithmetic, for every valid input, the rate
    evaluated at the test pressure with the index solved from the test
    observation is exactly [q_test], on the linear and on the composite
    branch. *)
Theorem round_trip_exact (pr pb pwf_test q_test : Q) :
  0 < pr -> 0 <= pb -> pb <= pr -> 0 <= pwf_test -> pwf_test < pr ->
  0 < q_test ->
  round_trip Qeq pr pb q_test pwf_test.
Proof.
  intros Hpr Hpb0 Hpb H0 Hlt Hq. unfold round_trip, calculate_q.
  destruct (Qlt_le_dec pwf_test pb) as [Hv|Hl].
  - destruct (solve_J_composite pr pb q_test pwf_test Hpb H0 Hv)
      as (t & Et & Ht & Hden & EJ).
    rewrite EJ; cbn.
    destruct (rate_at_vogel pwf_test pr pb
                (q_test / ((pr - pb) + pb / 1.8 * t)) Hv) as (t' & Et' & _ & ER).
    { lra. }
    rewrite Et in Et'. injection Et' as <-.
    eexists; split; [exact ER|]. field.
    assert (Hd : (pr - pb) * 1.8 + pb * t == 1.8 * (pr - pb + pb / 1.8 * t))
      by field.
    rewrite Hd. lra.
  - rewrite (solve_J_linear _ _ _ _ Hl Hlt); cbn.
    rewrite (rate_at_linear _ _ _ _ Hl).
    eexists; split; [reflexivity|]. field. lra.
Qed.

Lemma round_trip_exact_witness : round_trip Qeq 2500 1000 350 800.
Proof. apply round_trip_exact; lra. Defined.

(** C1 (as stated): on the binary64 numbers Python computes with, the
    round trip is not exact: with [pr = 49], [pb = 0], [pwf_test = 0] and
    [q_test = 1] the linear branch returns [(1/49)*49], the float just
    below 1 (a division and a product; no [**] is evaluated). *)
Lemma round_trip_float_counterexample :
  ~ round_trip (fun a b : float => PrimFloat.eqb a b = true)
      (of_Z 49) (of_Z 0) (of_Z 1) (of_Z 0).
Proof.
  intros (q & E & Hq). vm_compute in E. injection E as <-.
  vm_compute in Hq. discriminate Hq.
Qed.

(** C2 (as stated): at [p = pb] the Vogel term is not 1. *)
Lemma boundary_term_one_counterexample :
  ~ boundary_continuity 1 2500 1000 0.7.
Proof.
  intros (t & q & Et & Ht & _). vm_compute in Et. injection Et as <-.
  vm_compute in Ht. discriminate Ht.
Qed.

(** C2 (amended): for every [pr > 0], [0 < pb <= pr] and [J], the linear
    formula [J*(pr - pb)] and the Vogel formula evaluated at [p = pb] give
    the same rate; the Vogel term equals 0 there. *)
Theorem boundary_continuity_zero (pr pb j : Q) :
  0 < pr -> 0 < pb -> pb <= pr ->
  boundary_continuity 0 pr pb j.
Proof.
  intros Hpr Hpb0 Hpb. unfold boundary_continuity.
  assert (Hnz : ~ pb == 0) by lra.
  destruct (vogel_term_Q pb pb Hnz) as (t & Et & Ht).
  assert (Ht0 : t == 0).
  { rewrite Ht. unfold vogel_poly. field. exact Hnz. }
  exists t. eexists. split; [exact Et|]. split; [exact Ht0|].
  unfold vogel_rate. rewrite Et; cbn.
  rewrite ?Qdiv_py_ok by lra. split; [reflexivity|].
  unfold linear_rate; cbn. rewrite Ht0. ring.
Qed.

Lemma boundary_continuity_zero_witness : boundary_continuity 0 2500 1000 0.7.
Proof. apply boundary_continuity_zero; lra. Defined.

(** C3 (as stated): with [pb > pr] a test point at [pwf_test == pr] lies
    below [pb]; the composite branch returns a number. *)
Lemma zero_drawdown_counterexample :
  ~ zero_drawdown_raises 1000 2000 350 1000.
Proof.
  intros Hc. destruct Hc as [E _]; [reflexivity|].
  vm_compute in E. discriminate E.
Qed.

(** C3 (amended): for every input with [pwf_test == pr] and [pb <= pr],
    solving for the productivity index raises [ZeroDivisionError]; no
    number is returned. *)
Theorem zero_drawdown_raises_ok (pr pb q_test pwf_test : Q) :
  pb <= pr ->
  zero_drawdown_raises pr pb q_test pwf_test.
Proof.
  intros Hpb Heq.
  assert (EJ : solve_J pr pb q_test pwf_test = Raise ZeroDivisionError).
  { unfold solve_J. rewrite regime_of_ge by lra. cbn.
    apply Qdiv_py_zero. lra. }
  split; [exact EJ|].
  intros p_val. unfold calculate_q. now rewrite EJ.
Qed.

Lemma zero_drawdown_raises_ok_witness :
  solve_J 2500 1000 350 2500 = Raise ZeroDivisionError /\
  forall p_val, calculate_q p_val 2500 1000 350 2500 = Raise ZeroDivisionError.
Proof.
  apply (zero_drawdown_raises_ok 2500 1000 350 2500); [lra | reflexivity].
Defined.

(** C4 (as stated): with [pb = pr = 2500] the in-range test pressure 2000
    is solved on the composite branch. *)
Lemma saturated_solves_linear_counterexample :
  ~ saturated_solves_linear 2500 2500 2000.
Proof.
  intros Hc. assert (E : regime_of (2000 : Q) 2500 = Linear)
    by (apply Hc; lra).
  vm_compute in E. discriminate E.
Qed.

(** C4 (amended): when [pb == pr], an in-range test pressure is solved on
    the linear branch only at [pwf_test == pr]; every [pwf_test] in
    [[0, pr)] is solved on the composite branch, where the linear part
    [pr - pb] vanishes and [J = q_test / ((pb/1.8) * vogel_term)]. *)
Theorem saturated_solves_composite (pr pb q_test pwf_test : Q) :
  pb == pr -> 0 <= pwf_test -> pwf_test <= pr ->
  (regime_of pwf_test pb = Linear <-> pwf_test == pr) /\
  (pwf_test < pr ->
   regime_of pwf_test pb = Vogel /\
   exists j, solve_J pr pb q_test pwf_test = Ok j /\
             j == q_test / (pb / 1.8 * vogel_poly (pwf_test / pb))).
Proof.
  intros Heq H0 Hle. split.
  - rewrite regime_of_Linear_iff. split; intros; lra.
  - intros Hlt. assert (Hv : pwf_test < pb) by lra.
    split; [exact (regime_of_lt _ _ Hv)|].
    destruct (solve_J_composite pr pb q_test pwf_test) as (t & _ & Ht & Hden & EJ);
      [lra | exact H0 | exact Hv |].
    eexists; split; [exact EJ|].
    assert (Hd : pr - pb + pb / 1.8 * t == pb / 1.8 * vogel_poly (pwf_test / pb)).
    { rewrite Ht. setoid_replace pr with pb by (symmetry; exact Heq). ring. }
    rewrite <- Hd. reflexivity.
Qed.

Lemma saturated_solves_composite_witness :
  (regime_of (2000 : Q) 2500 = Linear <-> 2000 == 2500) /\
  regime_of (2000 : Q) 2500 = Vogel /\
  exists j, solve_J 2500 2500 350 2000 = Ok j /\
            j == 350 / (2500 / 1.8 * vogel_poly (2000 / 2500)).
Proof.
  destruct (saturated_solves_composite 2500 2500 350 2000) as [Hiff Hlt];
    [lra | lra | lra |].
  split; [exact Hiff | apply Hlt; lra].
Defined.

(** C5: when [pb == 0], for every [pwf_test] and [p] in [[0, pr]] the
    solver and the evaluator both take the linear branch, so [calculate_q]
    is the linear computation alone, in which nothing is divided by [pb];
    this follows from the branch conditions, the code has no guard.  The
    one division left, by [pr - pwf_test], returns whenever the test point
    has a drawdown. *)
Theorem pb_zero_linear_only (p pr pb q_test pwf_test : Q) :
  pb == 0 ->
  0 <= pwf_test -> pwf_test <= pr ->
  0 <= p -> p <= pr ->
  regime_of pwf_test pb = Linear /\
  regime_of p pb = Linear /\
  calculate_q p pr pb q_test pwf_test =
    (j <- Qdiv_py q_test (pr - pwf_test) ;; Ok (j * (pr - p))) /\
  (pwf_test < pr -> exists q, calculate_q p pr pb q_test pwf_test = Ok q).
Proof.
  intros Hpb H0 Hle Hp0 Hple.
  assert (E1 : regime_of pwf_test pb = Linear) by (apply regime_of_ge; lra).
  assert (E2 : regime_of p pb = Linear) by (apply regime_of_ge; lra).
  assert (E : calculate_q p pr pb q_test pwf_test =
              (j <- Qdiv_py q_test (pr - pwf_test) ;; Ok (j * (pr - p)))).
  { unfold calculate_q, solve_J, rate_at. rewrite E1, E2. reflexivity. }
  repeat split; try assumption.
  intros Hlt. rewrite E, Qdiv_py_ok by lra. eexists; reflexivity.
Qed.

Lemma pb_zero_linear_only_witness :
  regime_of (2000 : Q) 0 = Linear /\
  regime_of (1850 : Q) 0 = Linear /\
  calculate_q 1850 2500 0 350 2000 =
    (j <- Qdiv_py 350 (2500 - 2000) ;; Ok (j * (2500 - 1850))) /\
  (2000 < 2500 -> exists q, calculate_q 1850 2500 0 350 2000 = Ok q).
Proof. apply (pb_zero_linear_only 1850 2500 0 350 2000); lra. Defined.

(** C6: for fixed [pr > 0], [0 <= pb <= pr] and [J > 0], the evaluator
    returns a rate at every pressure of [[0, pr]], and the rate is
    non-increasing in the pressure. *)
Theorem rate_at_antitone (pr pb j p1 p2 : Q) :
  0 < pr -> 0 <= pb -> pb <= pr -> 0 < j ->
  0 <= p1 -> p1 <= p2 -> p2 <= pr ->
  exists q1 q2,
    rate_at p1 pr pb j = Ok q1 /\ rate_at p2 pr pb j = Ok q2 /\ q2 <= q1.
Proof.
  intros Hpr Hpb0 Hpb Hj H1 H12 H2.
  destruct (Qlt_le_dec p1 pb) as [Hv1|Hl1].
  - assert (Hnz : ~ pb == 0) by lra.
    assert (Hc : 0 < j * pb / 1.8).
    { apply Qlt_shift_div_l; [lra|]. nra. }
    destruct (rate_at_vogel p1 pr pb j Hv1 Hnz) as (t1 & _ & Ht1 & E1).
    destruct (ratio_bounds _ _ H1 Hv1) as [Hx0 Hx1].
    destruct (Qlt_le_dec p2 pb) as [Hv2|Hl2].
    + destruct (rate_at_vogel p2 pr pb j Hv2 Hnz) as (t2 & _ & Ht2 & E2).
      do 2 eexists. split; [exact E1|]. split; [exact E2|].
      assert (Hx : p1 / pb <= p2 / pb).
      { apply Qle_shift_div_l; [lra|].
        setoid_replace (p1 / pb * pb) with p1 by (field; exact Hnz).
        exact H12. }
      pose proof (vogel_poly_antitone _ _ Hx0 Hx) as Ht.
      rewrite <- Ht1, <- Ht2 in Ht. nra.
    + do 2 eexists. split; [exact E1|].
      split; [exact (rate_at_linear _ _ _ _ Hl2)|].
      pose proof (vogel_poly_pos _ Hx0 Hx1) as Ht. rewrite <- Ht1 in Ht.
      nra.
  - do 2 eexists. split; [exact (rate_at_linear _ _ _ _ Hl1)|].
    split; [apply rate_at_linear; lra|]. nra.
Qed.

Lemma rate_at_antitone_witness :
  exists q1 q2,
    rate_at 800 2500 1000 0.7 = Ok q1 /\ rate_at 1850 2500 1000 0.7 = Ok q2 /\
    q2 <= q1.
Proof. apply (rate_at_antitone 2500 1000 0.7 800 1850); lra. Defined.

(** C7 (amended): in exact arithmetic, for every input with [q_test > 0],
    [pr > pwf_test >= 0] and [pr >= pb >= 0], the solver returns an index,
    and it is strictly positive:
    on the linear branch it is [q_test / (pr - pwf_test)], on the
    composite branch [q_test] over the denominator
    [(pr - pb) + (pb/1.8)*vogel_term], which is strictly positive. *)
Theorem solve_J_positive (pr pb q_test pwf_test : Q) :
  0 < q_test -> 0 <= pwf_test -> pwf_test < pr -> 0 <= pb -> pb <= pr ->
  exists j,
    solve_J pr pb q_test pwf_test = Ok j /\ 0 < j /\
    (pb <= pwf_test -> j = q_test / (pr - pwf_test)) /\
    (pwf_test < pb ->
     exists t, vogel_term pwf_test pb = Ok t /\
               0 < (pr - pb) + pb / 1.8 * t /\
               j = q_test / ((pr - pb) + pb / 1.8 * t)).
Proof.
  intros Hq H0 Hlt Hpb0 Hpb.
  destruct (Qlt_le_dec pwf_test pb) as [Hv|Hl].
  - destruct (solve_J_composite pr pb q_test pwf_test Hpb H0 Hv)
      as (t & Et & _ & Hden & EJ).
    eexists; split; [exact EJ|]. split; [|split].
    + apply Qlt_shift_div_l; [exact Hden | lra].
    + intros Hge. lra.
    + intros _. exists t. auto.
  - eexists; split; [exact (solve_J_linear _ _ _ _ Hl Hlt)|]. split; [|split].
    + apply Qlt_shift_div_l; lra.
    + reflexivity.
    + intros Hv. lra.
Qed.

Lemma solve_J_positive_witness :
  exists j,
    solve_J 2500 1000 350 800 = Ok j /\ 0 < j /\
    (1000 <= 800 -> j = 350 / (2500 - 800)) /\
    (800 < 1000 ->
     exists t, vogel_term 800 1000 = Ok t /\
               0 < (2500 - 1000) + 1000 / 1.8 * t /\
               j = 350 / ((2500 - 1000) + 1000 / 1.8 * t)).
Proof. apply (solve_J_positive 2500 1000 350 800); lra. Defined.

(** C7 (as stated): on the binary64 numbers Python computes with, the
    index of a valid test observation can be zero: with [pr = 4],
    [pb = 0], [pwf_test = 0] and [q_test] the smallest positive float,
    [2^-1074], the linear branch returns [q_test / 4], which rounds to
    [0.0]. *)
Lemma solve_J_float_counterexample :
  ~ index_positive (fun a b : float => PrimFloat.ltb a b = true)
      4%float 0%float 0x1p-1074%float 0%float.
Proof.
  intros Hc. destruct Hc as (j & E & Hj); try (vm_compute; reflexivity).
  vm_compute in E. injection E as <-.
  vm_compute in Hj. discriminate Hj.
Qed.

(** C8 (as stated): at the target pressure 3000, above [pr = 2500], the
    evaluator raises nothing: it returns the extrapolated rate. *)
Lemma out_of_range_counterexample :
  ~ out_of_range_raises 3000 2500 1000 0.7.
Proof.
  intros Hc. destruct Hc as [e E]; [right; lra|].
  vm_compute in E. discriminate E.
Qed.

(** C8 (amended): the evaluator checks no range.  In exact arithmetic,
    with [0 <= pb <= pr], a target pressure above [pr] returns the linear
    extrapolation
    [J*(pr - p)]; a negative one returns the Vogel formula's value when
    [pb > 0], and raises [ZeroDivisionError] when [pb == 0]. *)
Theorem out_of_range_extrapolates (p pr pb j : Q) :
  0 <= pb -> pb <= pr ->
  (pr < p -> rate_at p pr pb j = Ok (j * (pr - p))) /\
  (p < 0 -> 0 < pb ->
   exists q, rate_at p pr pb j = Ok q /\
             q == j * (pr - pb) + j * pb / 1.8 * vogel_poly (p / pb)) /\
  (p < 0 -> pb == 0 -> rate_at p pr pb j = Raise ZeroDivisionError).
Proof.
  intros Hpb0 Hpb. repeat split.
  - intros Hp. apply rate_at_linear. lra.
  - intros Hp Hpos.
    destruct (rate_at_vogel p pr pb j) as (t & _ & Ht & E); [lra | lra |].
    eexists; split; [exact E|]. rewrite Ht. reflexivity.
  - intros Hp Hz. unfold rate_at, vogel_rate.
    rewrite regime_of_lt by lra. now rewrite (vogel_term_Q_zero _ _ Hz).
Qed.

Lemma out_of_range_extrapolates_witness :
  rate_at 3000 2500 1000 0.7 = Ok (0.7 * (2500 - 3000)) /\
  (exists q, rate_at (-100) 2500 1000 0.7 = Ok q /\
             q == 0.7 * (2500 - 1000)
                  + 0.7 * 1000 / 1.8 * vogel_poly (-100 / 1000)) /\
  rate_at (-100) 2500 0 0.7 = Raise ZeroDivisionError.
Proof.
  split; [|split].
  - apply (out_of_range_extrapolates 3000 2500 1000 0.7); lra.
  - apply (out_of_range_extrapolates (-100) 2500 1000 0.7); lra.
  - apply (out_of_range_extrapolates (-100) 2500 0 0.7); lra.
Defined.

(** ** The sampled curve *)

Lemma mapM_total {A B : Type} (f : A -> result B) (l : list A) :
  (forall a, In a l -> exists b, f a = Ok b) ->
  exists bs, mapM f l = Ok bs /\ length bs = length l /\
             forall i d d', (i < length l)%nat ->
                            f (nth i l d) = Ok (nth i bs d').
Proof.
  induction l as [|a l IH]; intros Hf.
  - exists []. repeat split. intros i d d' Hi. inversion Hi.
  - destruct (Hf a (or_introl eq_refl)) as [b Eb].
    destruct IH as (bs & Ebs & Hlen & Hnth).
    { intros a' Ha'. apply Hf. now right. }
    exists (b :: bs). cbn. rewrite Eb, Ebs; cbn.
    repeat split; [now rewrite Hlen|].
    intros [|i] d d' Hi; cbn; [exact Eb|].
    apply Hnth. cbn in Hi. lia.
Qed.

Lemma nth_samples (f : nat -> Q) (stop : Q) (m i : nat) (d : Q) :
  (i < m)%nat -> nth i (map f (seq 0 m) ++ [stop]) d = f i.
Proof.
  intros Hi.
  rewrite app_nth1 by now rewrite length_map, length_seq.
  rewrite (nth_indep _ d (f O)) by now rewrite length_map, length_seq.
  rewrite map_nth, seq_nth by exact Hi. reflexivity.
Qed.

Lemma nth_samples_last (f : nat -> Q) (stop : Q) (m : nat) (d : Q) :
  nth m (map f (seq 0 m) ++ [stop]) d = stop.
Proof.
  rewrite app_nth2; rewrite length_map, length_seq; [|lia].
  now rewrite Nat.sub_diag.
Qed.

Lemma inject_Z_succ (i : nat) :
  inject_Z (Z.of_nat (S i)) == inject_Z (Z.of_nat i) + 1.
Proof. rewrite Nat2Z.inj_succ. unfold Z.succ. now rewrite inject_Z_plus. Qed.

Lemma inject_Z_nat_nonneg (i : nat) : 0 <= inject_Z (Z.of_nat i).
Proof.
  change 0 with (inject_Z 0). rewrite <- Zle_Qle. apply Nat2Z.is_nonneg.
Qed.

Lemma inject_Z_nat_le (i m : nat) :
  (i <= m)%nat -> inject_Z (Z.of_nat i) <= inject_Z (Z.of_nat m).
Proof. intros Hi. rewrite <- Zle_Qle. now apply Nat2Z.inj_le. Qed.

(** [linspace] on at least two samples, in closed form. *)
Lemma linspace_Q (start stop : Q) (m : nat) :
  (1 <= m)%nat ->
  linspace start stop (S m) =
    Ok (map (sample_point start stop m) (seq 0 m) ++ [stop]).
Proof.
  intros Hm. destruct m as [|m']; [lia|].
  unfold linspace. cbv [div Arith_Q sub of_Z add mul].
  rewrite Qdiv_py_ok; [reflexivity|].
  pose proof (inject_Z_succ m'). pose proof (inject_Z_nat_nonneg m'). lra.
Qed.

(** [linspace] on [m + 1 >= 2] samples from [start] to a larger [stop]:
    the samples start at [start], end at [stop], are evenly spaced and
    strictly increasing. *)
Lemma linspace_spec (start stop : Q) (m : nat) :
  (1 <= m)%nat -> start < stop ->
  exists ps,
    linspace start stop (S m) = Ok ps /\
    length ps = S m /\
    nth 0 ps 0 == start /\
    nth m ps 0 == stop /\
    forall i, (i < m)%nat ->
      nth (S i) ps 0 - nth i ps 0 == (stop - start) / inject_Z (Z.of_nat m) /\
      nth i ps 0 < nth (S i) ps 0 /\
      start <= nth i ps 0.
Proof.
  intros Hm Hlt. eexists. split; [exact (linspace_Q start stop m Hm)|].
  assert (HM : 0 < inject_Z (Z.of_nat m)).
  { destruct m as [|m']; [lia|].
    pose proof (inject_Z_succ m'). pose proof (inject_Z_nat_nonneg m'). lra. }
  set (M := inject_Z (Z.of_nat m)) in *.
  set (step := (stop - start) / M).
  assert (Hstep : step * M == stop - start) by (unfold step; field; lra).
  assert (Hpos : 0 < step) by (apply Qlt_shift_div_l; lra).
  split; [|split; [|split]].
  - rewrite length_app, length_map, length_seq. cbn. lia.
  - rewrite nth_samples by lia. unfold sample_point. cbn. ring.
  - now rewrite nth_samples_last.
  - intros i Hi. rewrite (nth_samples _ _ _ i) by exact Hi.
    pose proof (inject_Z_nat_nonneg i) as Ha.
    pose proof (inject_Z_succ i) as Hs.
    assert (Hi' : sample_point start stop m i
                  == inject_Z (Z.of_nat i) * step + start) by reflexivity.
    assert (Hd : nth (S i) (map (sample_point start stop m) (seq 0 m) ++ [stop]) 0
                 - sample_point start stop m i == step).
    { rewrite Hi'. destruct (Nat.eq_dec (S i) m) as [E|E].
      - rewrite E, nth_samples_last.
        assert (HMa : M == inject_Z (Z.of_nat i) + 1)
          by (unfold M; rewrite <- E; exact Hs).
        rewrite HMa in Hstep. nra.
      - rewrite nth_samples by lia. unfold sample_point. fold M. fold step.
        rewrite Hs. ring. }
    split; [exact Hd|]. split; [lra|]. rewrite Hi'. nra.
Qed.

(** C9 (amended): in exact arithmetic, for every [pr > 0] and
    [0 <= pb <= pr], with [J] the index the solver returns, and every
    sample count [n >= 2], the curve sampled as
    lines 40-41 do has exactly [n] points: the pressures start at 0, end at
    [pr], are evenly spaced by [pr/(n-1)] and strictly increasing, and each
    rate is the evaluator's at that pressure for the same [(pr, pb, J)];
    at [n = 100] these are the code's [pwf_range] and [q_curve]. *)
Theorem sampled_curve (pr pb q_test pwf_test j : Q) (n : nat) :
  0 < pr -> 0 <= pb -> pb <= pr ->
  solve_J pr pb q_test pwf_test = Ok j ->
  (2 <= n)%nat ->
  exists ps qs,
    linspace 0 pr n = Ok ps /\
    mapM (fun p => calculate_q p pr pb q_test pwf_test) ps = Ok qs /\
    length ps = n /\ length qs = n /\
    nth 0 ps 0 == 0 /\ nth (n - 1) ps 0 == pr /\
    (forall i, (S i < n)%nat ->
       nth (S i) ps 0 - nth i ps 0 == pr / inject_Z (Z.of_nat (n - 1)) /\
       nth i ps 0 < nth (S i) ps 0) /\
    (forall i, (i < n)%nat ->
       rate_at (nth i ps 0) pr pb j = Ok (nth i qs 0)) /\
    (n = 100%nat ->
       pwf_range pr = Ok ps /\ q_curve pr pb q_test pwf_test = Ok qs).
Proof.
  intros Hpr Hpb0 Hpb EJ Hn.
  destruct n as [|m]; [lia|].
  replace (S m - 1)%nat with m by lia.
  destruct (linspace_spec 0 pr m) as (ps & Eps & Hlen & Hfirst & Hlast & Hstep);
    [lia | exact Hpr |].
  assert (Hnonneg : forall i, (i < S m)%nat -> 0 <= nth i ps 0).
  { intros i Hi. destruct (Nat.eq_dec i m) as [->|Hne].
    - rewrite Hlast. lra.
    - now apply Hstep; lia. }
  destruct (mapM_total (fun p => calculate_q p pr pb q_test pwf_test) ps)
    as (qs & Eqs & Hlenq & Hnth).
  { intros p Hp. destruct (In_nth _ _ 0 Hp) as (i & Hi & <-).
    unfold calculate_q. rewrite EJ; cbn.
    assert (H0 : 0 <= nth i ps 0) by (apply Hnonneg; lia).
    destruct (Qlt_le_dec (nth i ps 0) pb) as [Hv|Hl].
    - destruct (rate_at_vogel (nth i ps 0) pr pb j Hv) as (t & _ & _ & E);
        [lra|]. eexists; exact E.
    - eexists; exact (rate_at_linear _ _ _ _ Hl). }
  exists ps, qs.
  split; [exact Eps|]. split; [exact Eqs|].
  split; [exact Hlen|]. split; [lia|].
  split; [exact Hfirst|]. split; [exact Hlast|]. split; [|split].
  - intros i Hi. destruct (Hstep i) as (Hd & Hinc & _); [lia|].
    split; [|exact Hinc]. rewrite Hd. field.
    assert (HM : inject_Z (Z.of_nat 1) <= inject_Z (Z.of_nat m))
      by (apply inject_Z_nat_le; lia).
    change (inject_Z (Z.of_nat 1)) with 1 in HM. lra.
  - intros i Hi.
    specialize (Hnth i 0 0). unfold calculate_q in Hnth.
    rewrite EJ in Hnth. apply Hnth. lia.
  - intros E. rewrite E in Eps.
    assert (Eps' : pwf_range pr = Ok ps) by exact Eps.
    split; [exact Eps'|]. unfold q_curve. rewrite Eps'. exact Eqs.
Qed.

Lemma sampled_curve_witness :
  exists ps qs,
    linspace 0 2500 100 = Ok ps /\
    mapM (fun p => calculate_q p 2500 1000 350 2000) ps = Ok qs /\
    length ps = 100%nat /\ length qs = 100%nat /\
    nth 0 ps 0 == 0 /\ nth (100 - 1) ps 0 == 2500 /\
    (forall i, (S i < 100)%nat ->
       nth (S i) ps 0 - nth i ps 0 == 2500 / inject_Z (Z.of_nat (100 - 1)) /\
       nth i ps 0 < nth (S i) ps 0) /\
    (forall i, (i < 100)%nat ->
       rate_at (nth i ps 0) 2500 1000 (350 / (2500 - 2000)) = Ok (nth i qs 0)) /\
    (100%nat = 100%nat ->
       pwf_range 2500 = Ok ps /\ q_curve 2500 1000 350 2000 = Ok qs).
Proof.
  apply (sampled_curve 2500 1000 350 2000 (350 / (2500 - 2000)) 100);
    [lra | lra | lra | reflexivity | lia].
Defined.

(** C9 (as stated): one sample cannot both start at 0 and end at [pr]:
    [linspace 0 2500 1] is the single pressure 0. *)
Lemma single_sample_counterexample : ~ samples_span 2500 1.
Proof.
  intros (ps & E & _ & _ & Hlast). vm_compute in E. injection E as <-.
  vm_compute in Hlast. discriminate Hlast.
Qed.

(** ** The index recomputed for display *)

Section Display.
Context {num : Type} `{Arith num}.

Lemma bind_raise_r {A B : Type} (m : result A) :
  (x <- m ;; (Raise ZeroDivisionError : result B)) = Raise ZeroDivisionError.
Proof. destruct m as [a|[]]; reflexivity. Qed.

(** C10: in any arithmetic, the index recomputed for display (lines 67-68)
    is the index [calculate_q] computes (lines 21-29) for the same inputs:
    both branch on the same test [pwf_test >= pb] and return the same result,
    a value or the exception; so [calculate_q] is the evaluator run on
    [j_disp]. *)
Theorem j_disp_is_solve_J (pr pb q_test pwf_test : num) :
  (geb pwf_test pb = true <-> regime_of pwf_test pb = Linear) /\
  j_disp pr pb q_test pwf_test = solve_J pr pb q_test pwf_test /\
  forall p_val,
    calculate_q p_val pr pb q_test pwf_test =
    (j <- j_disp pr pb q_test pwf_test ;; rate_at p_val pr pb j).
Proof.
  assert (E : j_disp pr pb q_test pwf_test = solve_J pr pb q_test pwf_test).
  { unfold j_disp, solve_J, regime_of, vogel_term.
    destruct (geb pwf_test pb); [reflexivity|].
    destruct (div pwf_test pb) as [x|[]]; cbn.
    - destruct (div pb (dec 1.8)) as [c|[]]; reflexivity.
    - apply bind_raise_r. }
  split; [|split].
  - unfold regime_of. destruct (geb pwf_test pb); split; congruence.
  - exact E.
  - intros p_val. unfold calculate_q. now rewrite E.
Qed.
End Display.

(** ** Further properties of the engine *)

Lemma result_eqv_refl (a : result Q) : result_eqv a a.
Proof. destruct a; cbn; reflexivity. Qed.

Lemma result_eqv_trans (a b c : result Q) :
  result_eqv a b -> result_eqv b c -> result_eqv a c.
Proof.
  destruct a, b, c; cbn; try tauto; try congruence.
  intros H1 H2. now rewrite H1.
Qed.

(** The evaluator respects the equality of indices. *)
Lemma rate_at_eqv (p pr pb j j' : Q) :
  j == j' -> result_eqv (rate_at p pr pb j) (rate_at p pr pb j').
Proof.
  intros Hj. unfold rate_at, vogel_rate, linear_rate.
  destruct (regime_of p pb); cbn.
  - rewrite Hj. reflexivity.
  - destruct (vogel_term p pb) as [t|e]; cbn; [|reflexivity].
    rewrite Hj. reflexivity.
Qed.

(** The evaluator is homogeneous in the index. *)
Lemma rate_at_scale (k p pr pb j j' : Q) :
  j' == k * j ->
  result_eqv (rate_at p pr pb j') (scale k (rate_at p pr pb j)).
Proof.
  intros Hj. unfold rate_at, vogel_rate, linear_rate.
  destruct (regime_of p pb); cbn.
  - rewrite Hj. ring.
  - destruct (vogel_term p pb) as [t|e]; cbn; [|reflexivity].
    rewrite Hj. field.
Qed.

Lemma rate_at_below_line (p pr pb j : Q) :
  p < pb -> ~ pb == 0 ->
  exists q, rate_at p pr pb j = Ok q /\
            q == j * (pr - p)
                 - j * pb * (0.8 / 1.8) * ((1 - p / pb) * (1 - p / pb)).
Proof.
  intros Hlt Hnz.
  destruct (rate_at_vogel p pr pb j Hlt Hnz) as (t & _ & Ht & E).
  eexists; split; [exact E|].
  rewrite Ht. unfold vogel_poly. field. exact Hnz.
Qed.

(** X1: below the bubble point the rate falls short of the straight
    line [J*(pr - p)] of the linear law by exactly
    [J*pb*(0.8/1.8)*(1 - p/pb)^2]; so for [J >= 0] it is never above the
    line, and for [J > 0] strictly below it. *)
Theorem vogel_below_straight_line (p pr pb j : Q) :
  0 < pb -> p < pb -> 0 <= j ->
  exists q,
    rate_at p pr pb j = Ok q /\
    j * (pr - p) - q == j * pb * (0.8 / 1.8) * ((1 - p / pb) * (1 - p / pb)) /\
    q <= j * (pr - p) /\
    (0 < j -> q < j * (pr - p)).
Proof.
  intros Hpb Hlt Hj.
  destruct (rate_at_below_line p pr pb j Hlt) as (q & E & Hq); [lra|].
  exists q. split; [exact E|].
  assert (Hx : p / pb < 1) by (apply Qlt_shift_div_r; lra).
  set (x := p / pb) in *.
  assert (Hs : 0 < (1 - x) * (1 - x)) by nra.
  assert (Hk : 0 < 0.8 / 1.8) by (apply Qlt_shift_div_l; lra).
  set (c := 0.8 / 1.8) in *.
  assert (Hc : 0 <= j * pb * c).
  { apply Qmult_le_0_compat; [apply Qmult_le_0_compat|]; lra. }
  split; [rewrite Hq; ring|]. split.
  - pose proof (Qmult_le_0_compat _ _ Hc (Qlt_le_weak _ _ Hs)). lra.
  - intros Hj'. assert (Hc' : 0 < j * pb * c).
    { apply Qmult_lt_0_compat; [apply Qmult_lt_0_compat|]; lra. }
    pose proof (Qmult_lt_0_compat _ _ Hc' Hs). lra.
Qed.

Lemma vogel_below_straight_line_witness :
  exists q,
    rate_at 800 2500 1000 0.7 = Ok q /\
    0.7 * (2500 - 800) - q
      == 0.7 * 1000 * (0.8 / 1.8) * ((1 - 800 / 1000) * (1 - 800 / 1000)) /\
    q <= 0.7 * (2500 - 800) /\
    (0 < 0.7 -> q < 0.7 * (2500 - 800)).
Proof. apply (vogel_below_straight_line 800 2500 1000 0.7); lra. Defined.

(** X2: any point of the curve calibrates the same curve.  For
    [0 <= pb <= pr] and a pressure [p] in [[0, pr)], the rate the evaluator
    returns at [p] for an index [J], taken as the test observation at [p],
    is solved back to [J]; and [calculate_q] on that observation agrees
    with the evaluator for [J] at every pressure [p']. *)
Theorem curve_point_recalibrates (p p' pr pb j : Q) :
  0 <= pb -> pb <= pr -> 0 <= p -> p < pr ->
  exists q j',
    rate_at p pr pb j = Ok q /\
    solve_J pr pb q p = Ok j' /\ j' == j /\
    result_eqv (calculate_q p' pr pb q p) (rate_at p' pr pb j).
Proof.
  intros Hpb0 Hpb H0 Hlt.
  assert (Hcore : exists q j', rate_at p pr pb j = Ok q /\
                               solve_J pr pb q p = Ok j' /\ j' == j).
  { destruct (Qlt_le_dec p pb) as [Hv|Hl].
    - destruct (rate_at_vogel p pr pb j Hv) as (t & Et & Ht & E); [lra|].
      destruct (solve_J_composite pr pb
                  (j * (pr - pb) + j * pb / 1.8 * t) p Hpb H0 Hv)
        as (t' & Et' & _ & Hden & EJ).
      rewrite Et in Et'. injection Et' as <-.
      do 2 eexists. split; [exact E|]. split; [exact EJ|].
      field. assert (Hd : (pr - pb) * 1.8 + pb * t
                          == 1.8 * (pr - pb + pb / 1.8 * t)) by field.
      rewrite Hd. lra.
    - do 2 eexists. split; [exact (rate_at_linear _ _ _ _ Hl)|].
      split; [exact (solve_J_linear _ _ _ _ Hl Hlt)|]. field. lra. }
  destruct Hcore as (q & j' & E & EJ & Hj).
  exists q, j'. repeat split; try assumption.
  unfold calculate_q. rewrite EJ; cbn. now apply rate_at_eqv.
Qed.

Lemma curve_point_recalibrates_witness :
  exists q j',
    rate_at 800 2500 1000 0.7 = Ok q /\
    solve_J 2500 1000 q 800 = Ok j' /\ j' == 0.7 /\
    result_eqv (calculate_q 1850 2500 1000 q 800) (rate_at 1850 2500 1000 0.7).
Proof. apply (curve_point_recalibrates 800 1850 2500 1000 0.7); lra. Defined.

(** The solver divides the test rate by a denominator the test rate has
    no part in. *)
Lemma solve_J_shape (pr pb pwf_test : Q) :
  exists d : result Q,
    forall q_test, solve_J pr pb q_test pwf_test = (den <- d ;; Qdiv_py q_test den).
Proof.
  unfold solve_J. destruct (regime_of pwf_test pb).
  - exists (Ok (pr - pwf_test)). reflexivity.
  - exists (vt <- vogel_term pwf_test pb ;;
            c <- Qdiv_py pb 1.8 ;; Ok (pr - pb + c * vt)).
    intros q_test. destruct (vogel_term pwf_test pb); reflexivity.
Qed.

(** X3: the rate is proportional to the test rate.  For all inputs,
    [calculate_q] on the test rate [k * q_test] raises where it raises on
    [q_test], and otherwise returns [k] times the rate. *)
Theorem calculate_q_homogeneous (k p_val pr pb q_test pwf_test : Q) :
  result_eqv (calculate_q p_val pr pb (k * q_test) pwf_test)
             (scale k (calculate_q p_val pr pb q_test pwf_test)).
Proof.
  unfold calculate_q.
  destruct (solve_J_shape pr pb pwf_test) as (d & Hd). rewrite !Hd.
  destruct d as [den|e]; cbn; [|reflexivity].
  unfold Qdiv_py. destruct (Qeq_bool den 0) eqn:E; cbn; [reflexivity|].
  apply rate_at_scale. apply Qeq_bool_neq in E. field. exact E.
Qed.

(** *** A change of the pressure unit *)

Lemma regime_of_units (c x pb : Q) :
  0 < c -> regime_of (c * x) (c * pb) = regime_of x pb.
Proof.
  intros Hc. destruct (Qlt_le_dec x pb) as [Hlt|Hle].
  - rewrite (regime_of_lt _ _ Hlt). apply regime_of_lt. nra.
  - rewrite (regime_of_ge _ _ Hle). apply regime_of_ge. nra.
Qed.

Lemma Qdiv_py_eqv (x x' y y' : Q) :
  x == x' -> y == y' -> result_eqv (Qdiv_py x y) (Qdiv_py x' y').
Proof.
  intros Hx Hy. destruct (Qeq_dec y 0) as [E|E].
  - rewrite !Qdiv_py_zero; [reflexivity | now rewrite <- Hy | exact E].
  - rewrite !Qdiv_py_ok; [cbn; now rewrite Hx, Hy | now rewrite <- Hy | exact E].
Qed.

(** A denominator [c] times larger gives a quotient [c] times smaller. *)
Lemma Qdiv_py_den_scale (c q d d' : Q) :
  ~ c == 0 -> d' == c * d ->
  result_eqv (Qdiv_py q d') (scale (/ c) (Qdiv_py q d)).
Proof.
  intros Hc Hd. destruct (Qeq_dec d 0) as [E|E].
  - rewrite !Qdiv_py_zero; [reflexivity | exact E | rewrite Hd, E; ring].
  - assert (E' : ~ d' == 0).
    { rewrite Hd. intros Hz. apply Qmult_integral in Hz. tauto. }
    rewrite !Qdiv_py_ok by assumption. cbn. rewrite Hd. now field.
Qed.

Lemma vogel_term_units (c p pb : Q) :
  ~ c == 0 ->
  result_eqv (vogel_term (c * p) (c * pb)) (vogel_term p pb).
Proof.
  intros Hc. destruct (Qeq_dec pb 0) as [E|E].
  - rewrite !vogel_term_Q_zero; [reflexivity | exact E | rewrite E; ring].
  - assert (E' : ~ c * pb == 0).
    { intros Hz. apply Qmult_integral in Hz. tauto. }
    destruct (vogel_term_Q (c * p) (c * pb) E') as (t' & -> & Ht').
    destruct (vogel_term_Q p pb E) as (t & -> & Ht).
    cbn. rewrite Ht', Ht. unfold vogel_poly. now field.
Qed.

Lemma solve_J_units (c pr pb q_test pwf_test : Q) :
  0 < c ->
  result_eqv (solve_J (c * pr) (c * pb) q_test (c * pwf_test))
             (scale (/ c) (solve_J pr pb q_test pwf_test)).
Proof.
  intros Hc. assert (Hnz : ~ c == 0) by lra.
  unfold solve_J. rewrite (regime_of_units _ _ _ Hc).
  destruct (regime_of pwf_test pb); cbn.
  - apply Qdiv_py_den_scale; [exact Hnz | ring].
  - pose proof (vogel_term_units c pwf_test pb Hnz) as Hv.
    destruct (vogel_term (c * pwf_test) (c * pb)) as [t'|e'],
             (vogel_term pwf_test pb) as [t|e]; cbn in *; try tauto.
    apply Qdiv_py_den_scale; [exact Hnz|]. rewrite Hv. field.
Qed.

Lemma rate_at_units (c p pr pb j j' : Q) :
  0 < c -> j' == / c * j ->
  result_eqv (rate_at (c * p) (c * pr) (c * pb) j') (rate_at p pr pb j).
Proof.
  intros Hc Hj. assert (Hnz : ~ c == 0) by lra.
  unfold rate_at, vogel_rate, linear_rate.
  rewrite (regime_of_units _ _ _ Hc).
  destruct (regime_of p pb); cbn.
  - rewrite Hj. now field.
  - pose proof (vogel_term_units c p pb Hnz) as Hv.
    destruct (vogel_term (c * p) (c * pb)) as [t'|e'],
             (vogel_term p pb) as [t|e]; cbn in *; try tauto.
    rewrite Hj, Hv. now field.
Qed.

(** X4: the engine does not depend on the unit of pressure.  Multiplying
    the four pressures by one factor [c > 0] leaves the result of
    [calculate_q] as it is: the same exception, or the same rate. *)
Theorem calculate_q_pressure_unit (c p_val pr pb q_test pwf_test : Q) :
  0 < c ->
  result_eqv (calculate_q (c * p_val) (c * pr) (c * pb) q_test (c * pwf_test))
             (calculate_q p_val pr pb q_test pwf_test).
Proof.
  intros Hc. unfold calculate_q.
  pose proof (solve_J_units c pr pb q_test pwf_test Hc) as HJ.
  destruct (solve_J (c * pr) (c * pb) q_test (c * pwf_test)) as [j'|e'],
           (solve_J pr pb q_test pwf_test) as [j|e]; cbn in *; try tauto.
  now apply rate_at_units.
Qed.

Lemma calculate_q_pressure_unit_witness :
  result_eqv (calculate_q (0.0689476 * 800) (0.0689476 * 2500)
                (0.0689476 * 1000) 350 (0.0689476 * 2000))
             (calculate_q 800 2500 1000 350 2000).
Proof. apply calculate_q_pressure_unit. lra. Defined.

(** *** The range of the rate *)

(** The evaluator returns at every pressure from 0 up, and what it returns
    does not increase with the pressure, for an index that is not
    negative. *)
Lemma rate_at_mono (pr pb j p1 p2 : Q) :
  0 <= pb -> 0 <= j -> 0 <= p1 -> p1 <= p2 ->
  exists q1 q2,
    rate_at p1 pr pb j = Ok q1 /\ rate_at p2 pr pb j = Ok q2 /\ q2 <= q1.
Proof.
  intros Hpb0 Hj H1 H12.
  destruct (Qlt_le_dec p1 pb) as [Hv1|Hl1].
  - assert (Hnz : ~ pb == 0) by lra.
    assert (Hc : 0 <= j * pb / 1.8).
    { apply Qle_shift_div_l; [lra|]. nra. }
    destruct (rate_at_vogel p1 pr pb j Hv1 Hnz) as (t1 & _ & Ht1 & E1).
    destruct (ratio_bounds _ _ H1 Hv1) as [Hx0 Hx1].
    destruct (Qlt_le_dec p2 pb) as [Hv2|Hl2].
    + destruct (rate_at_vogel p2 pr pb j Hv2 Hnz) as (t2 & _ & Ht2 & E2).
      do 2 eexists. split; [exact E1|]. split; [exact E2|].
      assert (Hx : p1 / pb <= p2 / pb).
      { apply Qle_shift_div_l; [lra|].
        setoid_replace (p1 / pb * pb) with p1 by (field; exact Hnz).
        exact H12. }
      pose proof (vogel_poly_antitone _ _ Hx0 Hx) as Ht.
      rewrite <- Ht1, <- Ht2 in Ht. nra.
    + do 2 eexists. split; [exact E1|].
      split; [exact (rate_at_linear _ _ _ _ Hl2)|].
      pose proof (vogel_poly_pos _ Hx0 Hx1) as Ht. rewrite <- Ht1 in Ht.
      nra.
  - do 2 eexists. split; [exact (rate_at_linear _ _ _ _ Hl1)|].
    split; [apply rate_at_linear; lra|]. nra.
Qed.

(** The rate at zero pressure, the largest the well can give. *)
Lemma rate_at_zero (pr pb j : Q) :
  0 <= pb ->
  exists q0, rate_at 0 pr pb j = Ok q0 /\
             q0 == j * (pr - pb) + j * pb / 1.8.
Proof.
  intros Hpb0. destruct (Qlt_le_dec 0 pb) as [Hv|Hl].
  - destruct (rate_at_vogel 0 pr pb j Hv) as (t & _ & Ht & E); [lra|].
    eexists; split; [exact E|].
    rewrite Ht. unfold vogel_poly. field. lra.
  - eexists; split; [exact (rate_at_linear _ _ _ _ Hl)|].
    assert (Hz : pb == 0) by lra. rewrite Hz. field.
Qed.

(** X5: for [0 <= pb <= pr] and an index [J >= 0], the evaluator returns
    a rate at every pressure of [[0, pr]], and the rate lies between the
    rate at [pr], which is 0, and the rate at zero pressure, which is
    [J*(pr - pb) + J*pb/1.8]. *)
Theorem rate_range (p pr pb j : Q) :
  0 <= pb -> pb <= pr -> 0 <= j -> 0 <= p -> p <= pr ->
  exists q q0 qr,
    rate_at p pr pb j = Ok q /\
    rate_at 0 pr pb j = Ok q0 /\ q0 == j * (pr - pb) + j * pb / 1.8 /\
    rate_at pr pr pb j = Ok qr /\ qr == 0 /\
    qr <= q /\ q <= q0.
Proof.
  intros Hpb0 Hpb Hj H0 Hle.
  destruct (rate_at_zero pr pb j Hpb0) as (q0 & E0 & Hq0).
  destruct (rate_at_mono pr pb j 0 p Hpb0 Hj) as (a & q & Ea & E & Hlo);
    [lra | exact H0 |].
  rewrite E0 in Ea. injection Ea as <-.
  destruct (rate_at_mono pr pb j p pr Hpb0 Hj H0 Hle) as (b & qr & Eb & Er & Hhi).
  rewrite E in Eb. injection Eb as <-.
  exists q, q0, qr. repeat split; try assumption.
  rewrite (rate_at_linear pr pr pb j Hpb) in Er. injection Er as <-. ring.
Qed.

Lemma rate_range_witness :
  exists q q0 qr,
    rate_at 800 2500 1000 0.7 = Ok q /\
    rate_at 0 2500 1000 0.7 = Ok q0 /\
    q0 == 0.7 * (2500 - 1000) + 0.7 * 1000 / 1.8 /\
    rate_at 2500 2500 1000 0.7 = Ok qr /\ qr == 0 /\
    qr <= q /\ q <= q0.
Proof. apply (rate_range 800 2500 1000 0.7); lra. Defined.

(** *** The index below the bubble point, for any reservoir pressure *)

(** X6: a test point below the bubble point, whatever [pr] is (the code
    does not ask for [pb <= pr]).  With
    [D = 1.8*pr*pb - 0.8*pb^2 - 0.2*pwf_test*pb - 0.8*pwf_test^2] and
    [q_test > 0], the solver raises [ZeroDivisionError] when [D == 0],
    and otherwise returns an index of the sign of [D].  For [pb <= pr],
    [D] is positive; for [pb > pr] it can be zero or negative. *)
Theorem composite_index_sign (pr pb q_test pwf_test : Q) :
  0 <= pwf_test -> pwf_test < pb -> 0 < q_test ->
  let D := 1.8 * pr * pb - 0.8 * (pb * pb) - 0.2 * pwf_test * pb
           - 0.8 * (pwf_test * pwf_test) in
  (D == 0 -> solve_J pr pb q_test pwf_test = Raise ZeroDivisionError) /\
  (~ D == 0 ->
   exists j, solve_J pr pb q_test pwf_test = Ok j /\
             (0 < j <-> 0 < D) /\ (j < 0 <-> D < 0)) /\
  (pb <= pr -> 0 < D).
Proof.
  intros H0 Hlt Hq D.
  assert (Hpb : 0 < pb) by lra. assert (Hnz : ~ pb == 0) by lra.
  destruct (vogel_term_Q pwf_test pb Hnz) as (t & Et & Ht).
  set (den := pr - pb + pb / 1.8 * t).
  assert (EJ : solve_J pr pb q_test pwf_test = Qdiv_py q_test den).
  { unfold solve_J. rewrite (regime_of_lt _ _ Hlt), Et. reflexivity. }
  assert (HD : D == den * (1.8 * pb)).
  { unfold D, den. rewrite Ht. unfold vogel_poly. field. exact Hnz. }
  set (k := 1.8 * pb) in *. assert (Hk : 0 < k) by (unfold k; lra).
  split; [|split].
  - intros Hz. rewrite EJ. apply Qdiv_py_zero.
    rewrite Hz in HD. symmetry in HD. apply Qmult_integral in HD.
    destruct HD as [Hd|Hd]; [exact Hd | lra].
  - intros Hne. assert (Hden : ~ den == 0).
    { intros Hz. apply Hne. rewrite HD, Hz. ring. }
    rewrite EJ, (Qdiv_py_ok _ _ Hden). eexists; split; [reflexivity|].
    assert (Hj : q_test / den * den == q_test) by (field; exact Hden).
    set (j := q_test / den) in *.
    split; split; intros Hs; nra.
  - intros Hle. destruct (ratio_bounds _ _ H0 Hlt) as [Hx0 Hx1].
    pose proof (composite_den_pos pr pb pwf_test t Hle H0 Hlt Ht) as Hd.
    fold den in Hd. nra.
Qed.

Lemma composite_index_sign_witness :
  solve_J 4 9 350 0 = Raise ZeroDivisionError /\
  exists j, solve_J 1000 2000 350 1000 = Ok j /\ j < 0.
Proof.
  split.
  - apply (composite_index_sign 4 9 350 0); [lra | lra | lra | reflexivity].
  - destruct (composite_index_sign 1000 2000 350 1000) as (_ & Hne & _);
      [lra | lra | lra |].
    destruct Hne as (j & E & _ & Hneg); [intros Hz; discriminate Hz|].
    exists j. split; [exact E|]. apply Hneg. reflexivity.
Defined.

(** *** The samples and the curve *)

(** Two samples or more stay between [start] and [stop]. *)
Lemma samples_in_range (start stop : Q) (m : nat) (p : Q) :
  (1 <= m)%nat -> start <= stop ->
  In p (map (sample_point start stop m) (seq 0 m) ++ [stop]) ->
  start <= p /\ p <= stop.
Proof.
  intros Hm Hle Hp.
  apply in_app_or in Hp. destruct Hp as [Hp|[<-|[]]]; [|lra].
  apply in_map_iff in Hp. destruct Hp as (i & <- & Hi).
  apply in_seq in Hi. unfold sample_point.
  pose proof (inject_Z_nat_nonneg i) as Ha.
  assert (Hs : inject_Z (Z.of_nat (S i)) <= inject_Z (Z.of_nat m))
    by (apply inject_Z_nat_le; lia).
  rewrite inject_Z_succ in Hs.
  set (a := inject_Z (Z.of_nat i)) in *.
  set (M := inject_Z (Z.of_nat m)) in *.
  assert (HM : 0 < M) by lra.
  assert (Hstep : (stop - start) / M * M == stop - start) by (field; lra).
  assert (Hpos : 0 <= (stop - start) / M) by (apply Qle_shift_div_l; lra).
  set (step := (stop - start) / M) in *. nra.
Qed.

(** X7: in exact arithmetic [linspace] never raises: for every count [n],
    also 0 and 1, and every [start <= stop] it returns [n] samples, all of
    them within [[start, stop]]. *)
Theorem linspace_in_range (start stop : Q) (n : nat) :
  start <= stop ->
  exists ps,
    linspace start stop n = Ok ps /\ length ps = n /\
    forall p, In p ps -> start <= p /\ p <= stop.
Proof.
  intros Hle. destruct n as [|[|m']].
  - exists []. split; [reflexivity|]. split; [reflexivity|].
    intros p [].
  - exists [start]. split; [reflexivity|]. split; [reflexivity|].
    intros p [<-|[]]. split; lra.
  - set (m := S m'). eexists. split; [apply (linspace_Q start stop m); lia|].
    split; [rewrite length_app, length_map, length_seq; cbn; lia|].
    intros p Hp. apply (samples_in_range start stop m); [lia | exact Hle | exact Hp].
Qed.

Lemma linspace_in_range_witness :
  exists ps,
    linspace 0 2500 100 = Ok ps /\ length ps = 100%nat /\
    forall p, In p ps -> 0 <= p /\ p <= 2500.
Proof. apply (linspace_in_range 0 2500 100). lra. Defined.

Lemma mapM_raise_head {A B : Type} (f : A -> result B) (a : A) (l : list A)
    (e : exn) :
  f a = Raise e -> mapM f (a :: l) = Raise e.
Proof. intros E. cbn. now rewrite E. Qed.

(** The code's 100 sample pressures: the first one, and the bounds. *)
Lemma pwf_range_Q (pr : Q) :
  0 <= pr ->
  exists p0 ps,
    pwf_range pr = Ok (p0 :: ps) /\ length (p0 :: ps) = 100%nat /\
    forall p, In p (p0 :: ps) -> 0 <= p /\ p <= pr.
Proof.
  intros Hpr.
  assert (E : pwf_range pr
              = Ok (map (sample_point 0 pr 99) (seq 0 99) ++ [pr]))
    by (apply (linspace_Q 0 pr 99); lia).
  assert (Hin : forall p, In p (map (sample_point 0 pr 99) (seq 0 99) ++ [pr])
                          -> 0 <= p /\ p <= pr)
    by (intros p; apply samples_in_range; [lia | exact Hpr]).
  assert (Hlen : length (map (sample_point 0 pr 99) (seq 0 99) ++ [pr])
                 = 100%nat)
    by (rewrite length_app, length_map, length_seq; reflexivity).
  destruct (map (sample_point 0 pr 99) (seq 0 99) ++ [pr]) as [|p0 ps];
    [discriminate Hlen|].
  exists p0, ps. repeat split; try assumption; now apply Hin.
Qed.

(** The evaluator returns at every pressure from 0 up when [pb >= 0]. *)
Lemma rate_at_total (p pr pb j : Q) :
  0 <= pb -> 0 <= p -> exists q, rate_at p pr pb j = Ok q.
Proof.
  intros Hpb0 H0. destruct (Qlt_le_dec p pb) as [Hv|Hl].
  - destruct (rate_at_vogel p pr pb j Hv) as (t & _ & _ & E); [lra|].
    eexists; exact E.
  - eexists; exact (rate_at_linear _ _ _ _ Hl).
Qed.

(** X8: for [pr >= 0] and [pb >= 0], the curve of line 41 can fail in the
    solver only: [q_curve] raises exactly when the solver raises (already
    at the first sample), and returns 100 rates whenever the solver
    returns an index. *)
Theorem q_curve_fails_with_solver (pr pb q_test pwf_test : Q) :
  0 <= pr -> 0 <= pb ->
  (q_curve pr pb q_test pwf_test = Raise ZeroDivisionError <->
   solve_J pr pb q_test pwf_test = Raise ZeroDivisionError) /\
  (forall j, solve_J pr pb q_test pwf_test = Ok j ->
             exists qs, q_curve pr pb q_test pwf_test = Ok qs /\
                        length qs = 100%nat).
Proof.
  intros Hpr Hpb0.
  destruct (pwf_range_Q pr Hpr) as (p0 & ps & Eps & Hlen & Hin).
  assert (Hok : forall j, solve_J pr pb q_test pwf_test = Ok j ->
                exists qs, q_curve pr pb q_test pwf_test = Ok qs /\
                           length qs = 100%nat).
  { intros j EJ. unfold q_curve. rewrite Eps; cbn [bind].
    destruct (mapM_total (fun p => calculate_q p pr pb q_test pwf_test)
                (p0 :: ps)) as (qs & Eqs & Hlq & _).
    { intros p Hp. unfold calculate_q. rewrite EJ; cbn.
      apply rate_at_total; [exact Hpb0 | now apply Hin]. }
    exists qs. split; [exact Eqs | lia]. }
  split; [|exact Hok]. split.
  - intros Hc. destruct (solve_J pr pb q_test pwf_test) as [j|[]] eqn:EJ;
      [|reflexivity].
    destruct (Hok j eq_refl) as (qs & Eqs & _). congruence.
  - intros EJ. unfold q_curve. rewrite Eps; cbn [bind].
    apply mapM_raise_head. unfold calculate_q. now rewrite EJ.
Qed.

Lemma q_curve_fails_with_solver_witness :
  (q_curve 2500 1000 350 2500 = Raise ZeroDivisionError <->
   solve_J 2500 1000 350 2500 = Raise ZeroDivisionError) /\
  (forall j, solve_J 2500 1000 350 2500 = Ok j ->
             exists qs, q_curve 2500 1000 350 2500 = Ok qs /\
                        length qs = 100%nat).
Proof. apply q_curve_fails_with_solver; lra. Defined.

(** The index of a valid test observation. *)
Lemma solve_J_valid (pr pb q_test pwf_test : Q) :
  0 < q_test -> 0 <= pwf_test -> pwf_test < pr -> pb <= pr ->
  exists j, solve_J pr pb q_test pwf_test = Ok j /\ 0 < j.
Proof.
  intros Hq H0 Hlt Hpb.
  destruct (Qlt_le_dec pwf_test pb) as [Hv|Hl].
  - destruct (solve_J_composite pr pb q_test pwf_test Hpb H0 Hv)
      as (t & _ & _ & Hden & EJ).
    eexists; split; [exact EJ|]. apply Qlt_shift_div_l; [exact Hden | lra].
  - eexists; split; [exact (solve_J_linear _ _ _ _ Hl Hlt)|].
    apply Qlt_shift_div_l; lra.
Qed.

(** The sampled pressures and rates of lines 40-41, point by point. *)
Lemma curve_points (pr pb q_test pwf_test j : Q) :
  0 < pr -> 0 <= pb ->
  solve_J pr pb q_test pwf_test = Ok j ->
  exists ps qs,
    pwf_range pr = Ok ps /\
    mapM (fun p => calculate_q p pr pb q_test pwf_test) ps = Ok qs /\
    length ps = 100%nat /\ length qs = 100%nat /\
    nth 0 ps 0 == 0 /\ nth 99 ps 0 == pr /\
    (forall i k, (i <= k)%nat -> (k < 100)%nat ->
                 0 <= nth i ps 0 /\ nth i ps 0 <= nth k ps 0) /\
    (forall i, (i < 100)%nat ->
               rate_at (nth i ps 0) pr pb j = Ok (nth i qs 0)).
Proof.
  intros Hpr Hpb0 EJ.
  destruct (linspace_spec 0 pr 99) as (ps & Eps & Hlen & Hfirst & Hlast & Hstep);
    [lia | exact Hpr |].
  assert (Hnonneg : forall i, (i < 100)%nat -> 0 <= nth i ps 0).
  { intros i Hi. destruct (Nat.eq_dec i 99) as [->|Hne].
    - rewrite Hlast. lra.
    - now apply Hstep; lia. }
  assert (Hsorted : forall i k, (i <= k)%nat -> (k < 100)%nat ->
                                nth i ps 0 <= nth k ps 0).
  { intros i k Hik. induction Hik as [|k Hik IH]; intros Hk; [lra|].
    destruct (Hstep k) as (_ & Hinc & _); [lia|].
    specialize (IH ltac:(lia)). lra. }
  destruct (mapM_total (fun p => calculate_q p pr pb q_test pwf_test) ps)
    as (qs & Eqs & Hlenq & Hnth).
  { intros p Hp. destruct (In_nth _ _ 0 Hp) as (i & Hi & <-).
    unfold calculate_q. rewrite EJ; cbn.
    apply rate_at_total; [exact Hpb0 | apply Hnonneg; lia]. }
  exists ps, qs.
  split; [exact Eps|]. split; [exact Eqs|].
  split; [exact Hlen|]. split; [lia|].
  split; [exact Hfirst|]. split; [exact Hlast|]. split.
  - intros i k Hik Hk. split; [apply Hnonneg; lia | now apply Hsorted].
  - intros i Hi. specialize (Hnth i 0 0). unfold calculate_q in Hnth.
    rewrite EJ in Hnth. apply Hnth. lia.
Qed.

(** X9: for a valid input ([0 <= pb <= pr], [0 <= pwf_test < pr],
    [q_test > 0]) the curve the script plots is a list of 100 rates that
    starts at the rate at zero pressure, [J*(pr - pb) + J*pb/1.8], never
    increases from one sample to a later one, and ends at 0; so every
    plotted rate is within these two. *)
Theorem q_curve_shape (pr pb q_test pwf_test : Q) :
  0 <= pb -> pb <= pr -> 0 <= pwf_test -> pwf_test < pr -> 0 < q_test ->
  exists j qs,
    solve_J pr pb q_test pwf_test = Ok j /\
    q_curve pr pb q_test pwf_test = Ok qs /\
    length qs = 100%nat /\
    nth 0 qs 0 == j * (pr - pb) + j * pb / 1.8 /\
    nth 99 qs 0 == 0 /\
    (forall i k, (i <= k)%nat -> (k < 100)%nat -> nth k qs 0 <= nth i qs 0) /\
    (forall i, (i < 100)%nat -> 0 <= nth i qs 0 <= nth 0 qs 0).
Proof.
  intros Hpb0 Hpb H0 Hlt Hq. assert (Hpr : 0 < pr) by lra.
  destruct (solve_J_valid pr pb q_test pwf_test Hq H0 Hlt Hpb) as (j & EJ & Hj).
  destruct (curve_points pr pb q_test pwf_test j Hpr Hpb0 EJ)
    as (ps & qs & Eps & Eqs & Hlen & Hlenq & Hfirst & Hlast & Hps & Hrate).
  assert (Hj0 : 0 <= j) by lra.
  assert (Hmono : forall i k, (i <= k)%nat -> (k < 100)%nat ->
                              nth k qs 0 <= nth i qs 0).
  { intros i k Hik Hk. destruct (Hps i k Hik Hk) as [Hi0 Hle].
    destruct (rate_at_mono pr pb j _ _ Hpb0 Hj0 Hi0 Hle) as (a & b & Ea & Eb & Hab).
    rewrite Hrate in Ea by lia. rewrite Hrate in Eb by lia.
    injection Ea as <-. injection Eb as <-. exact Hab. }
  assert (Hq0 : nth 0 qs 0 == j * (pr - pb) + j * pb / 1.8).
  { destruct (rate_at_zero pr pb j Hpb0) as (q0 & E0 & Hq0).
    rewrite <- Hq0. apply Qle_antisym.
    - destruct (rate_at_mono pr pb j 0 (nth 0 ps 0) Hpb0 Hj0)
        as (a & b & Ea & Eb & Hab); [lra | lra |].
      rewrite E0 in Ea. rewrite Hrate in Eb by lia.
      injection Ea as <-. injection Eb as <-. exact Hab.
    - destruct (rate_at_mono pr pb j (nth 0 ps 0) 0 Hpb0 Hj0)
        as (a & b & Ea & Eb & Hab); [lra | lra |].
      rewrite E0 in Eb. rewrite Hrate in Ea by lia.
      injection Ea as <-. injection Eb as <-. exact Hab. }
  assert (Hqr : nth 99 qs 0 == 0).
  { pose proof (rate_at_linear pr pr pb j Hpb) as Er.
    assert (Hz : j * (pr - pr) == 0) by ring.
    apply Qle_antisym.
    - destruct (rate_at_mono pr pb j pr (nth 99 ps 0) Hpb0 Hj0)
        as (a & b & Ea & Eb & Hab); [lra | lra |].
      rewrite Er in Ea. rewrite Hrate in Eb by lia.
      injection Ea as <-. injection Eb as <-. rewrite Hz in Hab. exact Hab.
    - destruct (Hps 99%nat 99%nat) as [H99 _]; [lia | lia |].
      destruct (rate_at_mono pr pb j (nth 99 ps 0) pr Hpb0 Hj0)
        as (a & b & Ea & Eb & Hab); [exact H99 | lra |].
      rewrite Er in Eb. rewrite Hrate in Ea by lia.
      injection Ea as <-. injection Eb as <-. rewrite Hz in Hab. exact Hab. }
  exists j, qs. split; [exact EJ|].
  split; [unfold q_curve; rewrite Eps; exact Eqs|].
  split; [exact Hlenq|]. split; [exact Hq0|]. split; [exact Hqr|].
  split; [exact Hmono|].
  intros i Hi. split.
  - assert (Hm : nth 99 qs 0 <= nth i qs 0) by (apply Hmono; lia). lra.
  - apply Hmono; lia.
Qed.

Lemma q_curve_shape_witness :
  exists j qs,
    solve_J 2500 1000 350 2000 = Ok j /\
    q_curve 2500 1000 350 2000 = Ok qs /\
    length qs = 100%nat /\
    nth 0 qs 0 == j * (2500 - 1000) + j * 1000 / 1.8 /\
    nth 99 qs 0 == 0 /\
    (forall i k, (i <= k)%nat -> (k < 100)%nat -> nth k qs 0 <= nth i qs 0) /\
    (forall i, (i < 100)%nat -> 0 <= nth i qs 0 <= nth 0 qs 0).
Proof. apply (q_curve_shape 2500 1000 350 2000); lra. Defined.

(** *** The script on the inputs of the sidebar *)

Lemma j_disp_Q (pr pb q_test pwf_test : Q) :
  j_disp pr pb q_test pwf_test = solve_J pr pb q_test pwf_test.
Proof.
  unfold j_disp, solve_J, regime_of, vogel_term.
  destruct (geb pwf_test pb); [reflexivity|].
  destruct (div pwf_test pb) as [x|[]]; reflexivity.
Qed.

Lemma sidebar_bounds (pr pb pwf_test q_test pwf_target : Z) :
  sidebar pr pb pwf_test q_test pwf_target = true ->
  (1 <= pr /\ 0 <= pb /\ 0 <= pwf_test <= pr /\ 1 <= q_test /\
   0 <= pwf_target <= pr)%Z.
Proof.
  unfold sidebar. rewrite !andb_true_iff, !Z.leb_le. tauto.
Qed.

Lemma state_Saturated (pr pb : Z) :
  state pr pb = "Saturated"%string <-> (pr <= pb)%Z.
Proof.
  unfold state. destruct (Z.gtb_spec pr pb) as [Hgt|Hle]; split; intros Hs;
    try discriminate Hs; try reflexivity; try exact Hle; lia.
Qed.

(** X10: the whole script, in exact arithmetic, on any inputs the
    sidebar lets through with [pb <= pr].  At [pwf_test = pr], which the
    sidebar allows, the script stops with [ZeroDivisionError].  At
    [pwf_test < pr] it runs to its end: 100 pressures and 100 rates are
    plotted, the index shown is positive, the target rate lies between 0
    and the first rate of the curve, and the status shown is "Saturated"
    exactly when [pb = pr]. *)
Theorem script_on_sidebar_inputs (pr pb pwf_test q_test pwf_target : Z) :
  sidebar pr pb pwf_test q_test pwf_target = true ->
  (pb <= pr)%Z ->
  (pwf_test = pr ->
   script (num := Q) pr pb pwf_test q_test pwf_target
   = Raise ZeroDivisionError) /\
  ((pwf_test < pr)%Z ->
   exists out,
     script (num := Q) pr pb pwf_test q_test pwf_target = Ok out /\
     length (out_pwf_range out) = 100%nat /\
     length (out_q_curve out) = 100%nat /\
     0 < out_j_disp out /\
     0 <= out_q_target out /\
     out_q_target out <= nth 0 (out_q_curve out) 0 /\
     (out_state out = "Saturated"%string <-> pb = pr)).
Proof.
  intros Hs Hpb.
  destruct (sidebar_bounds _ _ _ _ _ Hs) as (Hpr & Hpb0 & [H0 Hle] & Hq & [Ht0 Htle]).
  assert (Qpr : 0 < inject_Z pr) by (change 0 with (inject_Z 0); rewrite <- Zlt_Qlt; lia).
  assert (Qpb0 : 0 <= inject_Z pb) by (change 0 with (inject_Z 0); now rewrite <- Zle_Qle).
  assert (Qpb : inject_Z pb <= inject_Z pr) by now rewrite <- Zle_Qle.
  unfold script. cbn [of_Z Arith_Q].
  split.
  - intros ->.
    assert (EJ : solve_J (inject_Z pr) (inject_Z pb) (inject_Z q_test)
                   (inject_Z pr) = Raise ZeroDivisionError).
    { unfold solve_J. rewrite (regime_of_ge _ _ Qpb). cbn.
      apply Qdiv_py_zero. ring. }
    destruct (pwf_range_Q (inject_Z pr)) as (p0 & ps & Eps & _); [lra|].
    rewrite Eps; cbn [bind].
    rewrite (mapM_raise_head _ p0 ps ZeroDivisionError); [reflexivity|].
    unfold calculate_q. now rewrite EJ.
  - intros Hlt.
    assert (Q0 : 0 <= inject_Z pwf_test)
      by (change 0 with (inject_Z 0); now rewrite <- Zle_Qle).
    assert (Qlt : inject_Z pwf_test < inject_Z pr) by now rewrite <- Zlt_Qlt.
    assert (Qq : 0 < inject_Z q_test)
      by (change 0 with (inject_Z 0); rewrite <- Zlt_Qlt; lia).
    assert (Qt0 : 0 <= inject_Z pwf_target)
      by (change 0 with (inject_Z 0); now rewrite <- Zle_Qle).
    assert (Qtle : inject_Z pwf_target <= inject_Z pr) by now rewrite <- Zle_Qle.
    destruct (solve_J_valid _ _ _ _ Qq Q0 Qlt Qpb) as (j & EJ & Hj).
    destruct (curve_points _ _ _ _ j Qpr Qpb0 EJ)
      as (ps & qs & Eps & Eqs & Hlen & Hlenq & Hfirst & _ & Hps & Hrate).
    assert (Hj0 : 0 <= j) by lra.
    destruct (rate_at_mono (inject_Z pr) (inject_Z pb) j
                (nth 0 ps 0) (inject_Z pwf_target) Qpb0 Hj0)
      as (a & qt & Ea & Et & Hhi); [lra | lra |].
    rewrite Hrate in Ea by lia. injection Ea as <-.
    destruct (rate_at_mono (inject_Z pr) (inject_Z pb) j
                (inject_Z pwf_target) (inject_Z pr) Qpb0 Hj0 Qt0 Qtle)
      as (a & qr & Ea & Er & Hlo).
    rewrite Et in Ea. injection Ea as <-.
    rewrite (rate_at_linear _ _ _ j Qpb) in Er. injection Er as <-.
    rewrite Eps; cbn [bind]. rewrite Eqs; cbn [bind].
    unfold q_target, calculate_q. rewrite j_disp_Q, EJ; cbn [bind].
    rewrite Et; cbn [bind].
    eexists. split; [reflexivity|]. cbn.
    split; [exact Hlen|]. split; [exact Hlenq|]. split; [exact Hj|].
    split; [nra|]. split; [exact Hhi|].
    rewrite state_Saturated. lia.
Qed.

Lemma script_on_sidebar_inputs_witness :
  script (num := Q) 2500 1000 2500 350 1850 = Raise ZeroDivisionError /\
  exists out,
    script (num := Q) 2500 1000 2000 350 1850 = Ok out /\
    length (out_pwf_range out) = 100%nat /\
    length (out_q_curve out) = 100%nat /\
    0 < out_j_disp out /\
    0 <= out_q_target out /\
    out_q_target out <= nth 0 (out_q_curve out) 0 /\
    (out_state out = "Saturated"%string <-> 1000%Z = 2500%Z).
Proof.
  split.
  - apply (script_on_sidebar_inputs 2500 1000 2500 350 1850);
      [reflexivity | lia | reflexivity].
  - apply (script_on_sidebar_inputs 2500 1000 2000 350 1850);
      [reflexivity | lia | lia].
Defined.


(** *** The target against the test point *)

(** The round trip on its two branches, for the proofs below. *)
Lemma rate_at_test_point (pr pb q_test pwf_test : Q) :
  pb <= pr -> 0 <= pwf_test -> pwf_test < pr ->
  exists j q, solve_J pr pb q_test pwf_test = Ok j /\
              rate_at pwf_test pr pb j = Ok q /\ q == q_test.
Proof.
  intros Hpb H0 Hlt.
  destruct (Qlt_le_dec pwf_test pb) as [Hv|Hl].
  - destruct (solve_J_composite pr pb q_test pwf_test Hpb H0 Hv)
      as (t & Et & Ht & Hden & EJ).
    destruct (rate_at_vogel pwf_test pr pb
                (q_test / ((pr - pb) + pb / 1.8 * t)) Hv) as (t' & Et' & _ & ER).
    { lra. }
    rewrite Et in Et'. injection Et' as <-.
    do 2 eexists. split; [exact EJ|]. split; [exact ER|]. field.
    assert (Hd : (pr - pb) * 1.8 + pb * t == 1.8 * (pr - pb + pb / 1.8 * t))
      by field.
    rewrite Hd. lra.
  - do 2 eexists. split; [exact (solve_J_linear _ _ _ _ Hl Hlt)|].
    split; [exact (rate_at_linear _ _ _ _ Hl)|]. field. lra.
Qed.

(** X12: for a valid input ([0 <= pb <= pr], [0 <= pwf_test < pr],
    [q_test > 0]), [calculate_q] returns a rate at every pressure from 0
    up; at a pressure not above the test pressure the rate is at least
    the measured [q_test], and at a pressure not below it at most
    [q_test]. *)
Theorem target_against_test (p_val pr pb q_test pwf_test : Q) :
  0 <= pb -> pb <= pr -> 0 <= pwf_test -> pwf_test < pr -> 0 < q_test ->
  0 <= p_val ->
  exists q,
    calculate_q p_val pr pb q_test pwf_test = Ok q /\
    (p_val <= pwf_test -> q_test <= q) /\
    (pwf_test <= p_val -> q <= q_test).
Proof.
  intros Hpb0 Hpb H0 Hlt Hq Hp.
  destruct (rate_at_test_point pr pb q_test pwf_test Hpb H0 Hlt)
    as (j & qt & EJ & Et & Hqt).
  destruct (solve_J_valid pr pb q_test pwf_test Hq H0 Hlt Hpb) as (j' & EJ' & Hj).
  rewrite EJ in EJ'. injection EJ' as <-.
  assert (Hj0 : 0 <= j) by lra.
  destruct (rate_at_total p_val pr pb j Hpb0 Hp) as (q & E).
  exists q. unfold calculate_q. rewrite EJ; cbn [bind].
  split; [exact E|]. split; intros Hle.
  - destruct (rate_at_mono pr pb j p_val pwf_test Hpb0 Hj0 Hp Hle)
      as (a & b & Ea & Eb & Hab).
    rewrite E in Ea. rewrite Et in Eb.
    injection Ea as <-. injection Eb as <-. lra.
  - destruct (rate_at_mono pr pb j pwf_test p_val Hpb0 Hj0 H0 Hle)
      as (a & b & Ea & Eb & Hab).
    rewrite E in Eb. rewrite Et in Ea.
    injection Ea as <-. injection Eb as <-. lra.
Qed.

Lemma target_against_test_witness :
  exists q,
    calculate_q 1850 2500 1000 350 2000 = Ok q /\
    (1850 <= 2000 -> 350 <= q) /\
    (2000 <= 1850 -> q <= 350).
Proof. apply (target_against_test 1850 2500 1000 350 2000); lra. Defined.

(** ** Runs on binary64 *)

(** The sidebar's default inputs: the target rate is 455 up to rounding. *)
Example default_target_float :
  exists q,
    q_target (num := float) (of_Z 1850) (of_Z 2500) (of_Z 1000) (of_Z 350)
      (of_Z 2000) = Ok q /\
    PrimFloat.ltb (PrimFloat.abs (PrimFloat.sub q (of_Z 455)))
      (PrimFloat.div (of_Z 1) (of_Z 1000000000)) = true /\
    PrimFloat.eqb q (of_Z 455) = false.
Proof. eexists. vm_compute. repeat split. Qed.

(** A test point with no drawdown raises in floats as well. *)
Example zero_drawdown_float :
  solve_J (num := float) (of_Z 2500) (of_Z 1000) (of_Z 350) (of_Z 2500)
  = Raise ZeroDivisionError.
Proof. vm_compute. reflexivity. Qed.

(** At [p = pb] the two formulas of the evaluator agree in floats too. *)
Example boundary_float :
  vogel_rate (num := float) (of_Z 1000) (of_Z 2500) (of_Z 1000)
    (PrimFloat.div (of_Z 350) (of_Z 500))
  = Ok (linear_rate (of_Z 1000) (of_Z 2500) (PrimFloat.div (of_Z 350) (of_Z 500))).
Proof. vm_compute. reflexivity. Qed.

(** The two computations on the sidebar's default inputs, in floats. *)
Example j_disp_default_float :
  j_disp (num := float) (of_Z 2500) (of_Z 1000) (of_Z 350) (of_Z 2000)
  = solve_J (of_Z 2500) (of_Z 1000) (of_Z 350) (of_Z 2000).
Proof. vm_compute. reflexivity. Qed.

(** The script on the sidebar's default inputs, in floats: it runs to its
    end and shows the status "Undersaturated". *)
Example script_default_float :
  exists out,
    script (num := float) 2500 1000 2000 350 1850 = Ok out /\
    length (out_q_curve out) = 100%nat /\
    out_state out = "Undersaturated"%string.
Proof. eexists. vm_compute. repeat split. Qed.
